(** * js-part-0: the type classifier of [src/index.ts] and its aggregates

    A shallow embedding of [getType], [getRealType], [allItemsHaveTheSameType],
    [everyItemHasAUniqueRealType], [compareFn] and [countRealTypes], of the
    test utilities [areEqual], [test] and [testBlock], together
    with the part of the ECMAScript runtime these functions observe:
    [typeof], [instanceof], [isNaN], [Math.abs], [Object.prototype.toString],
    [String.prototype.slice], [String.prototype.toLowerCase], [Set], [Map]
    and [Array.prototype.sort]. *)

From Stdlib Require Import ZArith Floats.SpecFloat.
From stdpp Require Import gmap strings list sorting.

Local Open Scope string_scope.
Local Open Scope list_scope.
Local Open Scope nat_scope.

(** ** Runtime values *)

Module JS.

(** A string is the sequence of its UTF-16 code units, each a number below
    65536; a character outside the Basic Multilingual Plane takes two of
    them, a surrogate pair. [lit] gives the string a literal of the source,
    written in ASCII, denotes. *)
Fixpoint lit (s : string) : list N :=
  match s with
  | EmptyString => []
  | String c s' => Ascii.N_of_ascii c :: lit s'
  end.

(** Numbers are IEEE 754 doubles: zeros, infinities, the not-a-number
    sentinel and finite values (sign, mantissa, exponent). *)
Definition number := spec_float.

Definition NaN : number := S754_nan.
Definition Infinity : number := S754_infinity false.
Definition negInfinity : number := S754_infinity true.
Definition ofPos (p : positive) : number := S754_finite false p 0.

(** The intrinsic constructors whose [prototype] object can sit on the
    prototype chain of a value. *)
Inductive Ctor :=
  | Object_ | Function_ | Array_ | Number_ | String_ | Boolean_ | Symbol_
  | BigInt_ | Date_ | Set_ | Map_ | WeakMap_ | WeakSet_ | RegExp_ | Error_
  | Promise_ | ArrayBuffer_ | TypedArray_
  | Int8Array_ | Uint8Array_ | Int16Array_ | Uint16Array_ | Int32Array_
  | Uint32Array_ | Uint8ClampedArray_
  | UserClass (name : string).

#[global] Instance Ctor_eq_dec : EqDecision Ctor.
Proof. solve_decision. Defined.

(** The internal slots [Object.prototype.toString] looks at to choose its
    built-in tag; boxed primitives carry the primitive they wrap. *)
Inductive Slot :=
  | Ordinary
  | ArrayExotic
  | ParameterMap
  | ErrorData
  | BooleanData (b : bool)
  | NumberData (n : number)
  | StringData (s : list N)
  | DateValue
  | RegExpMatcher.

(** An object, as far as the classifier can observe it: its internal slot,
    whether it has [[Call]], the constructors whose prototype lies on its
    [[Prototype]] chain (nearest first) and the string, if any, that
    [Get(O, @@toStringTag)] yields. The elements or properties stored in the
    object are observed by none of the functions below. Objects that run
    user code when asked for their prototype or their [@@toStringTag]
    (proxies, throwing getters) are outside the model. *)
Record Obj := mkObj {
  slot : Slot;
  callable : bool;
  protoChain : list Ctor;
  toStringTag : option (list N)
}.

Inductive Value :=
  | VUndefined
  | VNull
  | VBoolean (b : bool)
  | VNumber (n : number)
  | VString (s : list N)
  | VSymbol (description : list N)
  | VBigInt (z : Z)
  | VObject (o : Obj).

(** *** Literals and constructor calls used by the fixtures *)

Definition arrayLiteral : Value := VObject (mkObj ArrayExotic false [Array_; Object_] None).
Definition objectLiteral : Value := VObject (mkObj Ordinary false [Object_] None).
Definition arrowFunction : Value := VObject (mkObj Ordinary true [Function_; Object_] None).
Definition newNumber (n : number) : Value :=
  VObject (mkObj (NumberData n) false [Number_; Object_] None).
Definition newString (s : list N) : Value :=
  VObject (mkObj (StringData s) false [String_; Object_] None).
Definition newBoolean (b : bool) : Value :=
  VObject (mkObj (BooleanData b) false [Boolean_; Object_] None).
Definition newDate : Value := VObject (mkObj DateValue false [Date_; Object_] None).
Definition newRegExp : Value := VObject (mkObj RegExpMatcher false [RegExp_; Object_] None).
Definition newError : Value := VObject (mkObj ErrorData false [Error_; Object_] None).
Definition newSet : Value := VObject (mkObj Ordinary false [Set_; Object_] (Some (lit "Set"))).
Definition newMap : Value := VObject (mkObj Ordinary false [Map_; Object_] (Some (lit "Map"))).
Definition newWeakSet : Value := VObject (mkObj Ordinary false [WeakSet_; Object_] (Some (lit "WeakSet"))).
Definition newWeakMap : Value := VObject (mkObj Ordinary false [WeakMap_; Object_] (Some (lit "WeakMap"))).

(** [new C(...)] for a typed-array constructor [C] named [name]: the
    [@@toStringTag] getter of [%TypedArray%.prototype] answers with the
    [[TypedArrayName]] of the view. *)
Definition newTypedArray (c : Ctor) (name : string) : Value :=
  VObject (mkObj Ordinary false [c; TypedArray_; Object_] (Some (lit name))).

Definition newInt8Array := newTypedArray Int8Array_ "Int8Array".
Definition newUint8Array := newTypedArray Uint8Array_ "Uint8Array".
Definition newInt16Array := newTypedArray Int16Array_ "Int16Array".
Definition newUint16Array := newTypedArray Uint16Array_ "Uint16Array".
Definition newInt32Array := newTypedArray Int32Array_ "Int32Array".
Definition newUint32Array := newTypedArray Uint32Array_ "Uint32Array".
Definition newUint8ClampedArray := newTypedArray Uint8ClampedArray_ "Uint8ClampedArray".

(** *** Operators *)

(** [typeof value] *)
Definition typeof (value : Value) : list N :=
  match value with
  | VUndefined => lit "undefined"
  | VNull => lit "object"
  | VBoolean _ => lit "boolean"
  | VNumber _ => lit "number"
  | VString _ => lit "string"
  | VSymbol _ => lit "symbol"
  | VBigInt _ => lit "bigint"
  | VObject o => if callable o then lit "function" else lit "object"
  end.

(** [value instanceof C] for an intrinsic constructor [C]: false on
    primitives, otherwise a walk along the prototype chain. *)
Definition instanceof (value : Value) (c : Ctor) : bool :=
  match value with
  | VObject o => bool_decide (c ∈ protoChain o)
  | _ => false
  end.

(** The Number held by a value whose [typeof] is ['number']. [isNaN] and
    [Math.abs] first coerce their argument with ToNumber, which is the
    identity on such a value; [getRealType] calls them under that guard
    only, so the coercion of other values is left out and reads as NaN. *)
Definition numberValue (value : Value) : number :=
  match value with
  | VNumber n => n
  | _ => NaN
  end.

Definition isNaN (value : Value) : bool :=
  match numberValue value with
  | S754_nan => true
  | _ => false
  end.

Definition Math_abs (value : Value) : number := SFabs (numberValue value).

(** [x === y] on two Numbers: IEEE equality, false on NaN. *)
Definition numberStrictEq (x y : number) : bool := SFeqb x y.

(** ToBoolean and the [!] operator. *)
Definition ToBoolean (value : Value) : bool :=
  match value with
  | VUndefined | VNull => false
  | VBoolean b => b
  | VNumber n =>
      match n with
      | S754_zero _ | S754_nan => false
      | _ => true
      end
  | VString s => negb (Nat.eqb (length s) 0)
  | VSymbol _ => true
  | VBigInt z => negb (z =? 0)%Z
  | VObject _ => true
  end.

Definition not (value : Value) : Value := VBoolean (negb (ToBoolean value)).

(** *** Strings *)

(** [a === b] on two strings: the same code units in the same order. *)
Fixpoint stringEq (a b : list N) : bool :=
  match a, b with
  | [], [] => true
  | x :: a', y :: b' => (x =? y)%N && stringEq a' b'
  | _, _ => false
  end.

(** [s.slice(start, end)]: negative indices count from the end, both are
    clamped to the length. *)
Definition slice (s : list N) (start end_ : Z) : list N :=
  let len := Z.of_nat (length s) in
  let from := if (start <? 0)%Z then Z.max (len + start) 0 else Z.min start len in
  let to := if (end_ <? 0)%Z then Z.max (len + end_) 0 else Z.min end_ len in
  take (Z.to_nat (Z.max (to - from) 0)) (drop (Z.to_nat from) s).

(** The lower-case mapping of one code unit of Latin-1: A-Z, and the
    capitals U+00C0..U+00DE save the multiplication sign U+00D7, move up by
    32. A code unit from 256 on is left as it is: of the characters outside
    Latin-1 the model covers those without a lower-case mapping (symbols,
    emoji, the replacement character, unpaired surrogates and the like). *)
Definition lowerUnit (c : N) : N :=
  if ((65 <=? c) && (c <=? 90))%N then (c + 32)%N
  else if ((192 <=? c) && (c <=? 222) && negb (c =? 215))%N then (c + 32)%N
  else c.

Definition toLowerCase (s : list N) : list N := lowerUnit <$> s.

(** [a < b] on two strings: the shorter of a string and its proper prefix
    comes first, otherwise the first code unit in which the two differ
    decides. *)
Fixpoint stringLt (a b : list N) : bool :=
  match a, b with
  | _, [] => false
  | [], _ :: _ => true
  | x :: a', y :: b' =>
      if (x <? y)%N then true
      else if (y <? x)%N then false
      else stringLt a' b'
  end.

(** *** Object.prototype.toString *)

Definition builtinTag (o : Obj) : list N :=
  match slot o with
  | ArrayExotic => lit "Array"
  | ParameterMap => lit "Arguments"
  | _ =>
      if callable o then lit "Function"
      else match slot o with
           | ErrorData => lit "Error"
           | BooleanData _ => lit "Boolean"
           | NumberData _ => lit "Number"
           | StringData _ => lit "String"
           | DateValue => lit "Date"
           | RegExpMatcher => lit "RegExp"
           | _ => lit "Object"
           end
  end.

(** ToObject on the primitives that have a wrapper. *)
Definition ToObject (value : Value) : option Obj :=
  match value with
  | VUndefined | VNull => None
  | VBoolean b => Some (mkObj (BooleanData b) false [Boolean_; Object_] None)
  | VNumber n => Some (mkObj (NumberData n) false [Number_; Object_] None)
  | VString s => Some (mkObj (StringData s) false [String_; Object_] None)
  | VSymbol _ => Some (mkObj Ordinary false [Symbol_; Object_] (Some (lit "Symbol")))
  | VBigInt _ => Some (mkObj Ordinary false [BigInt_; Object_] (Some (lit "BigInt")))
  | VObject o => Some o
  end.

(** [Object.prototype.toString.call(value)] *)
Definition Object_prototype_toString (value : Value) : list N :=
  match value with
  | VUndefined => lit "[object Undefined]"
  | VNull => lit "[object Null]"
  | _ =>
      match ToObject value with
      | Some o =>
          let tag := match toStringTag o with
                     | Some t => t
                     | None => builtinTag o
                     end in
          lit "[object " ++ tag ++ lit "]"
      | None => lit "[object Undefined]"
      end
  end.

(** *** Set

    A [Set] keeps its members in insertion order without repetition;
    strings are compared by SameValueZero, that is by equality. *)
Module JSSet.
Definition t := list (list N).
Definition empty : t := [].
Definition has (x : list N) (s : t) : bool := bool_decide (x ∈ s).
Definition add (x : list N) (s : t) : t := if has x s then s else s ++ [x].
(** [new Set(iterable)] *)
Definition new (iterable : list (list N)) : t :=
  fold_left (fun s x => add x s) iterable empty.
Definition size (s : t) : nat := length s.
End JSSet.

(** *** Map

    A [Map] from string keys to counts, entries in insertion order;
    [set] on a present key overwrites the value where the entry stands. *)
Module JSMap.
Definition t := list (list N * nat).
Definition empty : t := [].
Fixpoint get (k : list N) (m : t) : option nat :=
  match m with
  | [] => None
  | (k', v) :: m' => if stringEq k k' then Some v else get k m'
  end.
Fixpoint set (k : list N) (v : nat) (m : t) : t :=
  match m with
  | [] => [(k, v)]
  | (k', v') :: m' =>
      if stringEq k k' then (k', v) :: m' else (k', v') :: set k v m'
  end.
(** [[...map]] *)
Definition entries (m : t) : list (list N * nat) := m.
End JSMap.

(** [x || 0] where [x] is [undefined] or a count: [undefined] and [0] are
    falsy. *)
Definition orZero (x : option nat) : nat :=
  match x with
  | Some n => if (n =? 0)%nat then 0%nat else n
  | None => 0%nat
  end.

(** *** Array.prototype.sort

    The engine chooses the algorithm; the language requires the sort to be
    stable and, for a consistent comparator, the result to be ordered by it.
    Insertion from the right, each element going in front of the first
    element it does not compare greater than, is such a sort. *)
Section Sort.
Context {A : Type} (comparefn : A -> A -> Z).

Fixpoint sortInsert (x : A) (l : list A) : list A :=
  match l with
  | [] => [x]
  | y :: l' => if (0 <? comparefn x y)%Z then y :: sortInsert x l' else x :: l
  end.

Definition sort (l : list A) : list A := foldr sortInsert [] l.
End Sort.

End JS.

Import JS.

(** ** The functions of [src/index.ts]

    An array is a dense list of values (no holes). *)

Definition getType (value : Value) : list N := typeof value.

Definition getTypesOfItems (arr : list Value) : list (list N) :=
  map (fun item => getType item) arr.

Definition allItemsHaveTheSameType (arr : list Value) : bool :=
  (JSSet.size (JSSet.new (map (fun item => getType item) arr)) =? 1)%nat.

Definition getRealType (value : Value) : list N :=
  let typeOfValue := typeof value in
  if stringEq typeOfValue (lit "number") then
    if isNaN value then lit "NaN"
    else if numberStrictEq (Math_abs value) Infinity then lit "Infinity"
    else lit "number"
  else if stringEq typeOfValue (lit "string") then lit "string"
  else if stringEq typeOfValue (lit "boolean") then lit "boolean"
  else if stringEq typeOfValue (lit "undefined") then lit "undefined"
  else if stringEq typeOfValue (lit "symbol") then lit "symbol"
  else if stringEq typeOfValue (lit "function") then lit "function"
  else
    if instanceof value Array_ then lit "array"
    else if instanceof value Number_ then lit "number"
    else if instanceof value Date_ then lit "date"
    else if instanceof value Set_ then lit "set"
    else if instanceof value Map_ then lit "map"
    else if instanceof value WeakMap_ then lit "weakmap"
    else if instanceof value WeakSet_ then lit "weakset"
    else if instanceof value RegExp_ then lit "regexp"
    else if instanceof value Error_ then lit "error"
    else if instanceof value Date_ then lit "date"
    else toLowerCase (slice (Object_prototype_toString value) 8 (-1)).

Definition getRealTypesOfItems (arr : list Value) : list (list N) :=
  map (fun item => getRealType item) arr.

Definition everyItemHasAUniqueRealType (arr : list Value) : bool :=
  (JSSet.size (JSSet.new (map (fun item => getRealType item) arr)) =? length arr)%nat.

Definition compareFn (a b : list N * nat) : Z :=
  if stringLt (fst a) (fst b) then (-1)%Z
  else if stringLt (fst b) (fst a) then 1%Z
  else 0%Z.

Definition countRealTypes (arr : list Value) : list (list N * nat) :=
  let map :=
    fold_left
      (fun map element =>
         let realTypeOfValue := getRealType element in
         let realTypeExist := JSMap.get realTypeOfValue map in
         JSMap.set realTypeOfValue (orZero realTypeExist + 1) map)
      arr JSMap.empty in
  sort compareFn (JSMap.entries map).

(** ** Fixtures of the test section *)

Definition knownTypes : list Value :=
  [ VBoolean true; VNumber (ofPos 42); VString (lit "this is a string"); arrayLiteral;
    objectLiteral; arrowFunction; VUndefined; VNull; VNumber NaN;
    VNumber Infinity; newDate; newRegExp; newSet; newMap; VSymbol (lit "abc");
    newError; newWeakSet ].


(** The array of the test 'Values like a number':
    [[123, 123 / 'a', 1 / 0]], where [123 / 'a'] evaluates to NaN and
    [1 / 0] to Infinity. *)
Definition valuesLikeANumber : list Value :=
  [VNumber (ofPos 123); VNumber NaN; VNumber Infinity].

(** The array of the test 'Count unique types of array items':
    [[true, null, !null, !!null, {}]]. *)
Definition countFixture : list Value :=
  [VBoolean true; VNull; JS.not VNull; JS.not (JS.not VNull); objectLiteral].

(** The array of the test 'All arrays have unique types'. *)
Definition typedArrayViews : list Value :=
  [newInt8Array; newUint8Array; newInt16Array; newUint16Array;
   newInt32Array; newUint32Array; newUint8ClampedArray].

(** Two objects whose [@@toStringTag] is the one-character string U+1F600,
    the surrogate pair D83D DE00, and the one-character string U+FFFD. *)
Definition taggedObject (tag : list N) : Value :=
  VObject (mkObj Ordinary false [Object_] (Some tag)).
Definition astralTagged : Value := taggedObject [55357; 56832]%N.
Definition replacementTagged : Value := taggedObject [65533%N].

(** ** Lexicographic orders

    [lexLt a b]: [a] comes strictly before [b] when the two sequences are
    compared item by item, a proper prefix coming first. On strings, that
    is on sequences of code units, this is the order of UTF-16 code units. *)

Inductive lexLt : list N -> list N -> Prop :=
  | lexLt_prefix c s : lexLt [] (c :: s)
  | lexLt_head c1 c2 s1 s2 : (c1 < c2)%N -> lexLt (c1 :: s1) (c2 :: s2)
  | lexLt_tail c s1 s2 : lexLt s1 s2 -> lexLt (c :: s1) (c :: s2).

Definition lexLe (a b : list N) : Prop := a = b \/ lexLt a b.

(** The code points of a string: a high surrogate followed by a low one
    stands for one code point from U+10000 on, any other code unit for
    itself. *)
Definition isHighSurrogate (c : N) : bool := ((55296 <=? c) && (c <=? 56319))%N.
Definition isLowSurrogate (c : N) : bool := ((56320 <=? c) && (c <=? 57343))%N.

Fixpoint codePoints (s : list N) : list N :=
  match s with
  | [] => []
  | c :: rest =>
      match rest with
      | d :: rest' =>
          if isHighSurrogate c && isLowSurrogate d
          then (65536 + (c - 55296) * 1024 + (d - 56320))%N :: codePoints rest'
          else c :: codePoints rest
      | [] => [c]
      end
  end.

(** The lexicographic order of code points, the one the specification
    names for the grouped result. *)
Definition codePointLe (a b : list N) : Prop := lexLe (codePoints a) (codePoints b).
Definition entryCodePointLe (a b : list N * nat) : Prop := codePointLe a.1 b.1.

(** No code unit of the string is a surrogate: every character lies in the
    Basic Multilingual Plane. *)
Definition noSurrogates (s : list N) : bool :=
  forallb (fun c => negb (isHighSurrogate c || isLowSurrogate c)) s.

(** Entries of a grouped result compared by their tag. *)
Definition entryLt (a b : list N * nat) : Prop := lexLt a.1 b.1.
Definition entryLe (a b : list N * nat) : Prop := lexLe a.1 b.1.

(** The set of tags a classifier [f] gives to the elements of [arr]. *)
Definition tagSet (f : Value -> list N) (arr : list Value) : gset (list N) :=
  list_to_set (f <$> arr).

(** How often [k] occurs among [tags]. *)
Definition occurrences (k : list N) (tags : list (list N)) : nat :=
  length (filter (fun t => t = k) tags).

(** One turn of the [forEach] callback of [countRealTypes], on the tag of
    the element. *)
Definition countStep (m : JSMap.t) (tag : list N) : JSMap.t :=
  JSMap.set tag (orZero (JSMap.get tag m) + 1) m.

(** The constructors [getRealType] tests with [instanceof] before it falls
    back on the tag descriptor. *)
Definition testedCtors : list Ctor :=
  [Array_; Number_; Date_; Set_; Map_; WeakMap_; WeakSet_; RegExp_; Error_].

(** ** The test utilities of [src/index.ts]

    The results the tests compare: primitives and arrays of results, nested
    to any depth. Objects that are not arrays, which [===] tells apart by
    identity, do not occur among them. *)
#[local] Unset Elimination Schemes.
Inductive Data :=
  | DUndefined
  | DNull
  | DBoolean (b : bool)
  | DNumber (n : number)
  | DString (s : list N)
  | DArray (items : list Data).
#[local] Set Elimination Schemes.

(** [a === b] where at most one side is an array. An array is strictly
    equal to itself only, and [areEqual] asks [===] about an array only
    when the other side is none, so the array cases read false. *)
Definition strictEq (a b : Data) : bool :=
  match a, b with
  | DUndefined, DUndefined => true
  | DNull, DNull => true
  | DBoolean x, DBoolean y => Bool.eqb x y
  | DNumber x, DNumber y => numberStrictEq x y
  | DString x, DString y => stringEq x y
  | _, _ => false
  end.

(** [b[index]]: [undefined] past the end. *)
Definition at_index (b : list Data) (index : nat) : Data := nth index b DUndefined.

Fixpoint areEqual (a b : Data) : bool :=
  match a, b with
  | DArray xs, DArray ys =>
      (length xs =? length ys) &&
      (fix every (elements : list Data) (index : nat) {struct elements} : bool :=
         match elements with
         | [] => true
         | element :: rest =>
             areEqual element (at_index ys index) && every rest (S index)
         end) xs 0
  | _, _ => strictEq a b
  end.

(** The calls a run makes on [console], in order. *)
Inductive ConsoleCall :=
  | console_groupEnd
  | console_group (label : list N)
  | console_log (line : list N)
  | console_error (line : list N)
  | console_debug (arg : Data).

Definition newline : list N := [10%N].

Definition testBlock (name : list N) : list ConsoleCall :=
  [console_groupEnd; console_group (lit "# " ++ name ++ newline)].

Definition test (whatWeTest : list N) (actualResult expectedResult : Data)
  : list ConsoleCall :=
  if areEqual actualResult expectedResult then
    [console_log (lit "[OK] " ++ whatWeTest ++ newline)]
  else
    [console_error (lit "[FAIL] " ++ whatWeTest);
     console_debug (DString (lit "Expected:"));
     console_debug expectedResult;
     console_debug (DString (lit "Actual:"));
     console_debug actualResult;
     console_log (lit "")].

(** A count as a Number. *)
Definition countNumber (c : nat) : number :=
  match c with
  | 0 => S754_zero false
  | S _ => S754_finite false (Pos.of_nat c) 0
  end.

(** The results of the library as the tests hand them to [test]. *)
Definition tagsData (tags : list (list N)) : Data := DArray (DString <$> tags).
Definition entriesData (entries : list (list N * nat)) : Data :=
  DArray ((fun e => DArray [DString e.1; DNumber (countNumber e.2)]) <$> entries).

(** ** Auxiliary notions for the properties below *)

(** [every] of [areEqual], from position [index] on. *)
Fixpoint everyFrom (xs ys : list Data) (index : nat) : bool :=
  match xs with
  | [] => true
  | element :: rest =>
      areEqual element (at_index ys index) && everyFrom rest ys (S index)
  end.

(** No NaN anywhere inside. *)
Fixpoint nanFree (d : Data) : bool :=
  match d with
  | DNumber S754_nan => false
  | DArray items => forallb nanFree items
  | _ => true
  end.

(** No Number anywhere inside. *)
Fixpoint numberFree (d : Data) : bool :=
  match d with
  | DNumber _ => false
  | DArray items => forallb numberFree items
  | _ => true
  end.

(** The [instanceof] tests of [getRealType] in their order, each with the
    tag it answers. *)
Definition instanceTable : list (Ctor * list N) :=
  [(Array_, lit "array"); (Number_, lit "number"); (Date_, lit "date");
   (Set_, lit "set"); (Map_, lit "map"); (WeakMap_, lit "weakmap");
   (WeakSet_, lit "weakset"); (RegExp_, lit "regexp"); (Error_, lit "error")].

(** The tag of the first row of [instanceTable] whose constructor lies on
    the prototype chain of [o]. *)
Definition firstInstance (o : Obj) : option (list N) :=
  snd <$> List.find (fun row => bool_decide (row.1 ∈ protoChain o)) instanceTable.

(** The tag descriptor [Object.prototype.toString] puts between
    ['[object '] and [']']. *)
Definition descriptor (o : Obj) : list N :=
  match toStringTag o with
  | Some t => t
  | None => builtinTag o
  end.

(** The count a grouped result holds for [k], 0 when [k] has no entry. *)
Definition countOf (k : list N) (entries : list (list N * nat)) : nat :=
  default 0 (JSMap.get k entries).

(** ** String equality and order *)

Section StringOrder.

Lemma stringEq_eq a b : stringEq a b = true <-> a = b.
Proof.
  revert b. induction a as [|x a IH]; intros [|y b]; simpl; try done.
  rewrite andb_true_iff, N.eqb_eq, IH. split; [by intros [-> ->] | by intros [= -> ->]].
Qed.

Lemma stringEq_refl a : stringEq a a = true.
Proof. by apply stringEq_eq. Qed.

Lemma stringEq_sym a b : stringEq a b = stringEq b a.
Proof.
  destruct (stringEq a b) eqn:E.
  - apply stringEq_eq in E as ->. symmetry. apply stringEq_refl.
  - destruct (stringEq b a) eqn:E'; [| done].
    apply stringEq_eq in E' as ->. by rewrite stringEq_refl in E.
Qed.

Lemma stringEq_neq a b : stringEq a b = false <-> a <> b.
Proof.
  rewrite <- stringEq_eq. destruct (stringEq a b); split; congruence.
Qed.

Lemma stringLt_lexLt a b : stringLt a b = true <-> lexLt a b.
Proof.
  revert b. induction a as [|x a IH]; intros [|y b]; simpl.
  - split; [discriminate | inversion 1].
  - split; [constructor | reflexivity].
  - split; [discriminate | inversion 1].
  - destruct (N.ltb_spec x y) as [Hxy|Hxy].
    + split; [intros _; by apply lexLt_head | done].
    + destruct (N.ltb_spec y x) as [Hyx|Hyx].
      * split; [discriminate |]. inversion 1; subst; lia.
      * assert (x = y) as -> by lia. rewrite IH. split.
        -- apply lexLt_tail.
        -- inversion 1; subst; [lia | assumption].
Qed.

Lemma lexLt_irrefl a : ~ lexLt a a.
Proof. induction a; inversion 1; subst; [lia | auto]. Qed.

Lemma lexLt_trans a b c : lexLt a b -> lexLt b c -> lexLt a c.
Proof.
  intros Hab. revert c. induction Hab; intros c' Hbc; inversion Hbc; subst.
  - constructor.
  - constructor.
  - apply lexLt_head. lia.
  - by apply lexLt_head.
  - by apply lexLt_head.
  - apply lexLt_tail. auto.
Qed.

Lemma stringLt_trichotomy a b :
  stringLt a b = false -> stringLt b a = false -> a = b.
Proof.
  revert b. induction a as [|x a IH]; intros [|y b]; simpl; try done.
  destruct (N.ltb_spec x y) as [Hxy|Hxy]; [done |].
  destruct (N.ltb_spec y x) as [Hyx|Hyx]; [done |].
  assert (x = y) as -> by lia. intros Hab Hba. f_equal. by apply IH.
Qed.

Lemma codePoints_noSurrogates s : noSurrogates s = true -> codePoints s = s.
Proof.
  induction s as [|c [|d rest] IH]; [done | done |].
  intros Hs. cbn [noSurrogates forallb] in Hs. apply andb_true_iff in Hs as [Hc Hs].
  cbn [codePoints]. apply negb_true_iff, orb_false_iff in Hc as [-> _].
  cbn [andb]. f_equal. by apply IH.
Qed.

Lemma StronglySorted_impl_elem {A} (R R' : A -> A -> Prop) (l : list A) :
  (forall x y, x ∈ l -> y ∈ l -> R x y -> R' x y) ->
  StronglySorted R l -> StronglySorted R' l.
Proof.
  intros Himpl Hs. induction Hs as [|x l Hl IH Hx]; constructor.
  - apply IH. intros y z Hy Hz. apply Himpl; by right.
  - apply Forall_forall. intros y Hy. apply Himpl; [left | by right |].
    by apply (proj1 (Forall_forall _ _) Hx).
Qed.

#[global] Instance entryLt_trans : Transitive entryLt.
Proof. intros a b c. apply lexLt_trans. Qed.

#[global] Instance entryLt_antisym : AntiSymm (=) entryLt.
Proof.
  intros a b Hab Hba. destruct (lexLt_irrefl a.1). by eapply lexLt_trans.
Qed.

End StringOrder.

(** ** Set: insertion keeps members distinct *)

Section SetFacts.

Lemma Set_add_elem x y s : y ∈ JSSet.add x s <-> y = x \/ y ∈ s.
Proof.
  unfold JSSet.add, JSSet.has. case_bool_decide.
  - split; [auto | intros [->|]; done].
  - rewrite elem_of_app, list_elem_of_singleton. tauto.
Qed.

Lemma Set_add_NoDup x s : NoDup s -> NoDup (JSSet.add x s).
Proof.
  intros Hs. unfold JSSet.add, JSSet.has. case_bool_decide; [done |].
  apply NoDup_app. split_and!; [done | | apply NoDup_singleton].
  intros y Hy ->%list_elem_of_singleton. done.
Qed.

Lemma Set_fold_elem l s y :
  y ∈ fold_left (fun s x => JSSet.add x s) l s <-> y ∈ s \/ y ∈ l.
Proof.
  revert s. induction l as [|x l IH]; intros s; simpl.
  - rewrite elem_of_nil. tauto.
  - rewrite IH, Set_add_elem, elem_of_cons. tauto.
Qed.

Lemma Set_fold_NoDup l s :
  NoDup s -> NoDup (fold_left (fun s x => JSSet.add x s) l s).
Proof.
  revert s. induction l as [|x l IH]; intros s Hs; simpl; [done |].
  by apply IH, Set_add_NoDup.
Qed.

Lemma Set_new_elem l y : y ∈ JSSet.new l <-> y ∈ l.
Proof.
  unfold JSSet.new. rewrite Set_fold_elem. unfold JSSet.empty.
  rewrite elem_of_nil. tauto.
Qed.

Lemma Set_new_NoDup l : NoDup (JSSet.new l).
Proof. apply Set_fold_NoDup, NoDup_nil_2. Qed.

(** The size of a [Set] built from a list is the cardinality of the
    mathematical set of its elements. *)
Lemma Set_size_new l :
  JSSet.size (JSSet.new l) = size (list_to_set l : gset (list N)).
Proof.
  unfold JSSet.size.
  rewrite <- (size_list_to_set (C:=gset (list N))) by apply Set_new_NoDup.
  f_equal. apply set_eq. intros y.
  by rewrite !elem_of_list_to_set, Set_new_elem.
Qed.

Lemma size_list_to_set_le (l : list (list N)) :
  size (list_to_set l : gset (list N)) <= length l.
Proof.
  induction l as [|x l IH].
  - rewrite list_to_set_nil, size_empty. done.
  - rewrite list_to_set_cons, size_union_alt, size_singleton. simpl.
    assert (size (list_to_set l ∖ {[x]} : gset (list N)) <= size (list_to_set l : gset (list N)))
      as Hle by (apply subseteq_size, subseteq_difference_l; reflexivity).
    lia.
Qed.

Lemma size_list_to_set_NoDup (l : list (list N)) :
  size (list_to_set l : gset (list N)) = length l <-> NoDup l.
Proof.
  split; [| apply size_list_to_set].
  induction l as [|x l IH]; [constructor |].
  rewrite list_to_set_cons. simpl.
  intros Hsz. pose proof (size_list_to_set_le l) as Hle.
  destruct (decide (x ∈ l)) as [Hin|Hnin].
  - assert (({[x]} ∪ list_to_set l : gset (list N)) = list_to_set l) as Heq.
    { apply set_eq. intros y. rewrite elem_of_union, elem_of_singleton, !elem_of_list_to_set.
      split; [intros [->|]; done | auto]. }
    rewrite Heq in Hsz. lia.
  - rewrite size_union, size_singleton in Hsz by set_solver.
    constructor; [done | apply IH; lia].
Qed.

End SetFacts.

(** ** Map: lookups, keys and totals under [set] *)

Section MapFacts.

Implicit Types (m : JSMap.t) (k : list N) (v c : nat).

Lemma orZero_default (x : option nat) : orZero x = default 0 x.
Proof. destruct x as [[|n]|]; reflexivity. Qed.

Lemma Map_get_set_eq k v m : JSMap.get k (JSMap.set k v m) = Some v.
Proof.
  induction m as [|[k' v'] m IH]; simpl.
  - by rewrite stringEq_refl.
  - destruct (stringEq k k') eqn:E; simpl; rewrite E; [done | apply IH].
Qed.

Lemma Map_get_set_ne k k' v m :
  k <> k' -> JSMap.get k' (JSMap.set k v m) = JSMap.get k' m.
Proof.
  intros Hne. induction m as [|[k0 v0] m IH]; simpl.
  - destruct (stringEq k' k) eqn:E.
    + apply stringEq_eq in E. congruence.
    + reflexivity.
  - destruct (stringEq k k0) eqn:E; simpl.
    + apply stringEq_eq in E as <-.
      assert (stringEq k' k = false) as -> by (apply stringEq_neq; congruence).
      reflexivity.
    + by rewrite IH.
Qed.

Lemma Map_get_None k m : JSMap.get k m = None <-> k ∉ m.*1.
Proof.
  induction m as [|[k' v'] m IH]; simpl.
  - rewrite elem_of_nil. tauto.
  - rewrite not_elem_of_cons. destruct (stringEq k k') eqn:E.
    + apply stringEq_eq in E. split; [done | tauto].
    + apply stringEq_neq in E. tauto.
Qed.

Lemma Map_get_elem k c m : JSMap.get k m = Some c -> (k, c) ∈ m.
Proof.
  induction m as [|[k' v'] m IH]; simpl; [done |].
  destruct (stringEq k k') eqn:E.
  - apply stringEq_eq in E as ->. intros [= ->]. left.
  - intros. right. auto.
Qed.

Lemma Map_elem_get k c m : NoDup m.*1 -> (k, c) ∈ m -> JSMap.get k m = Some c.
Proof.
  induction m as [|[k' v'] m IH]; simpl; [by intros _ ?%elem_of_nil |].
  intros [Hnin Hnd]%NoDup_cons [[= -> ->]|Hin]%elem_of_cons.
  - by rewrite stringEq_refl.
  - destruct (stringEq k k') eqn:E; [| auto].
    apply stringEq_eq in E as ->. destruct Hnin.
    apply list_elem_of_fmap. by exists (k', c).
Qed.

Lemma Map_set_keys k v m :
  (JSMap.set k v m).*1 =
    match JSMap.get k m with Some _ => m.*1 | None => m.*1 ++ [k] end.
Proof.
  induction m as [|[k' v'] m IH]; csimpl; [done |].
  destruct (stringEq k k') eqn:E; csimpl; [done |].
  rewrite IH. by destruct (JSMap.get k m).
Qed.

Lemma Map_set_NoDup k v m : NoDup m.*1 -> NoDup (JSMap.set k v m).*1.
Proof.
  intros Hnd. rewrite Map_set_keys. destruct (JSMap.get k m) eqn:E; [done |].
  apply Map_get_None in E. apply NoDup_app. split_and!; [done | | apply NoDup_singleton].
  intros y Hy ->%list_elem_of_singleton. done.
Qed.

Lemma Map_set_sum k v m :
  sum_list (JSMap.set k v m).*2 + default 0 (JSMap.get k m) = sum_list m.*2 + v.
Proof.
  induction m as [|[k' v'] m IH]; csimpl; [lia |].
  destruct (stringEq k k') eqn:E; csimpl; lia.
Qed.

Lemma countStep_sum m tag :
  sum_list (countStep m tag).*2 = sum_list m.*2 + 1.
Proof.
  unfold countStep. pose proof (Map_set_sum tag (orZero (JSMap.get tag m) + 1) m) as H.
  rewrite orZero_default in *. lia.
Qed.

Lemma countStep_get m tag k :
  JSMap.get k (countStep m tag) =
    if decide (tag = k) then Some (default 0 (JSMap.get k m) + 1) else JSMap.get k m.
Proof.
  unfold countStep. case_decide as Hk.
  - subst. by rewrite Map_get_set_eq, orZero_default.
  - by apply Map_get_set_ne.
Qed.

(** The loop of [countRealTypes], from any starting map. *)
Lemma countLoop_sum tags m :
  sum_list (fold_left countStep tags m).*2 = sum_list m.*2 + length tags.
Proof.
  revert m. induction tags as [|t tags IH]; intros m; simpl; [lia |].
  rewrite IH, countStep_sum. lia.
Qed.

Lemma countLoop_NoDup tags m :
  NoDup m.*1 -> NoDup (fold_left countStep tags m).*1.
Proof.
  revert m. induction tags as [|t tags IH]; intros m Hm; simpl; [done |].
  by apply IH, Map_set_NoDup.
Qed.

Lemma countLoop_get tags m k :
  JSMap.get k (fold_left countStep tags m) =
    match occurrences k tags with
    | 0 => JSMap.get k m
    | S n => Some (default 0 (JSMap.get k m) + S n)
    end.
Proof.
  revert m. induction tags as [|t tags IH]; intros m; [done |].
  cbn [fold_left]. rewrite IH, countStep_get. unfold occurrences.
  rewrite filter_cons. case_decide as Hk; simpl.
  - destruct (length _); simpl; [done | f_equal; lia].
  - done.
Qed.

Lemma countLoop_get_empty tags k c :
  JSMap.get k (fold_left countStep tags JSMap.empty) = Some c <->
  c = occurrences k tags /\ 0 < c.
Proof.
  rewrite countLoop_get. simpl. destruct (occurrences k tags).
  - split; [done | lia].
  - split; [intros [= <-]; lia | intros [-> _]; done].
Qed.

Lemma occurrences_pos k tags : 0 < occurrences k tags <-> k ∈ tags.
Proof.
  unfold occurrences. induction tags as [|t tags IH]; simpl.
  - rewrite elem_of_nil. lia.
  - rewrite filter_cons, elem_of_cons. case_decide; simpl.
    + subst. split; [auto | lia].
    + rewrite IH. split; [auto | intros [?|?]; [congruence | done]].
Qed.

Lemma occurrences_Permutation k tags tags' :
  tags ≡ₚ tags' -> occurrences k tags = occurrences k tags'.
Proof. unfold occurrences. by intros ->. Qed.

End MapFacts.

(** ** Sorting entries with [compareFn] *)

Section SortFacts.

Lemma sortInsert_Permutation {A} (cmp : A -> A -> Z) x l :
  sortInsert cmp x l ≡ₚ x :: l.
Proof.
  induction l as [|y l IH]; simpl; [done |].
  destruct (0 <? cmp x y)%Z; [| done].
  rewrite IH. apply perm_swap.
Qed.

Lemma sort_Permutation {A} (cmp : A -> A -> Z) l : sort cmp l ≡ₚ l.
Proof.
  induction l as [|x l IH]; simpl; [done |].
  by rewrite sortInsert_Permutation, IH.
Qed.

Lemma compareFn_pos a b : (0 < compareFn a b)%Z <-> lexLt b.1 a.1.
Proof.
  unfold compareFn. rewrite <- stringLt_lexLt.
  destruct (stringLt a.1 b.1) eqn:Hab; [| destruct (stringLt b.1 a.1)]; split; try done; try lia.
  intros Hba. apply stringLt_lexLt in Hab, Hba.
  destruct (lexLt_irrefl a.1). by eapply lexLt_trans.
Qed.

Lemma compareFn_not_pos a b :
  ~ (0 < compareFn a b)%Z -> a.1 <> b.1 -> lexLt a.1 b.1.
Proof.
  unfold compareFn. intros Hc Hne. apply stringLt_lexLt.
  destruct (stringLt a.1 b.1) eqn:Hab; [done |].
  destruct (stringLt b.1 a.1) eqn:Hba; [lia |].
  destruct Hne. by apply stringLt_trichotomy.
Qed.

Lemma sortInsert_sorted x l :
  StronglySorted entryLt l -> x.1 ∉ l.*1 ->
  StronglySorted entryLt (sortInsert compareFn x l).
Proof.
  induction 1 as [|y l Hl IH Hy]; intros Hx; simpl.
  - repeat constructor.
  - apply not_elem_of_cons in Hx as [Hxy Hx].
    destruct (0 <? compareFn x y)%Z eqn:E.
    + apply Z.ltb_lt, compareFn_pos in E. constructor; [by apply IH |].
      rewrite sortInsert_Permutation. by constructor.
    + apply Z.ltb_ge in E.
      assert (entryLt x y) as Hlt by (apply compareFn_not_pos; [lia | done]).
      constructor; [by constructor |].
      constructor; [done |].
      eapply Forall_impl; [exact Hy |]. intros z Hz. by etrans.
Qed.

Lemma sort_sorted l : NoDup l.*1 -> StronglySorted entryLt (sort compareFn l).
Proof.
  induction l as [|x l IH]; csimpl; [constructor |].
  intros [Hx Hl]%NoDup_cons. apply sortInsert_sorted; [by apply IH |].
  by rewrite sort_Permutation.
Qed.

Lemma entryLt_entryLe l : StronglySorted entryLt l -> StronglySorted entryLe l.
Proof.
  induction 1 as [|y l Hl IH Hy]; constructor; [done |].
  eapply Forall_impl; [exact Hy |]. intros z Hz. by right.
Qed.

End SortFacts.

(** ** The grouped result *)

Section Grouping.

(** [countRealTypes] is the sorted outcome of the counting loop. *)
Lemma countRealTypes_unfold arr :
  countRealTypes arr =
    sort compareFn (fold_left countStep (getRealType <$> arr) JSMap.empty).
Proof.
  unfold countRealTypes, JSMap.entries. f_equal.
  generalize JSMap.empty. induction arr as [|x arr IH]; intros m; [done |].
  csimpl. by rewrite IH.
Qed.

Lemma countRealTypes_NoDup arr : NoDup (countRealTypes arr).*1.
Proof.
  rewrite countRealTypes_unfold, sort_Permutation.
  apply countLoop_NoDup. constructor.
Qed.

Lemma countRealTypes_elem arr k c :
  (k, c) ∈ countRealTypes arr <->
  c = occurrences k (getRealType <$> arr) /\ 0 < c.
Proof.
  rewrite countRealTypes_unfold, sort_Permutation, <- countLoop_get_empty.
  split; [apply Map_elem_get, countLoop_NoDup; constructor | apply Map_get_elem].
Qed.

Lemma countRealTypes_sorted arr : StronglySorted entryLt (countRealTypes arr).
Proof.
  rewrite countRealTypes_unfold. apply sort_sorted, countLoop_NoDup. constructor.
Qed.

Lemma countRealTypes_sum arr : sum_list (countRealTypes arr).*2 = length arr.
Proof.
  rewrite countRealTypes_unfold, sort_Permutation, countLoop_sum.
  by rewrite length_fmap.
Qed.

Lemma countRealTypes_Permutation arr arr' :
  arr ≡ₚ arr' -> countRealTypes arr = countRealTypes arr'.
Proof.
  intros Hp. apply (StronglySorted_unique entryLt); try apply countRealTypes_sorted.
  apply NoDup_Permutation; try (eapply NoDup_fmap_1, countRealTypes_NoDup).
  intros [k c]. rewrite !countRealTypes_elem.
  by rewrite (occurrences_Permutation k _ (getRealType <$> arr')) by by rewrite Hp.
Qed.

End Grouping.

(** ** The classifier *)

Section Classifier.

Lemma typeof_number_inv value :
  typeof value = (lit "number") <-> exists n, value = VNumber n.
Proof.
  split; [| by intros [n ->]].
  destruct value as [| | | n | | | |o]; try discriminate; [by exists n |].
  simpl. by destruct (callable o).
Qed.

Lemma getRealType_VNumber n :
  getRealType (VNumber n) =
    match n with
    | S754_nan => (lit "NaN")
    | S754_infinity _ => (lit "Infinity")
    | _ => (lit "number")
    end.
Proof. by destruct n as [[]|[]| |[] m e]. Qed.

End Classifier.

(** ** Homogeneity and uniqueness checks *)

Section Aggregates.

Lemma allItemsHaveTheSameType_size arr :
  allItemsHaveTheSameType arr = true <-> size (tagSet getType arr) = 1.
Proof.
  unfold allItemsHaveTheSameType, tagSet.
  by rewrite Nat.eqb_eq, Set_size_new.
Qed.

Lemma everyItemHasAUniqueRealType_size arr :
  everyItemHasAUniqueRealType arr = true <->
  size (tagSet getRealType arr) = length arr.
Proof.
  unfold everyItemHasAUniqueRealType, tagSet.
  by rewrite Nat.eqb_eq, Set_size_new.
Qed.

End Aggregates.

(** ** The model against the tests of [src/index.ts] *)

Example check_basic_types :
  getTypesOfItems knownTypes =
    [(lit "boolean"); (lit "number"); (lit "string"); (lit "object"); (lit "object"); (lit "function");
     (lit "undefined"); (lit "object"); (lit "number"); (lit "number"); (lit "object"); (lit "object");
     (lit "object"); (lit "object"); (lit "symbol"); (lit "object"); (lit "object")].
Proof. reflexivity. Qed.

Example check_real_types :
  getRealTypesOfItems knownTypes =
    [(lit "boolean"); (lit "number"); (lit "string"); (lit "array"); (lit "object"); (lit "function");
     (lit "undefined"); (lit "null"); (lit "NaN"); (lit "Infinity"); (lit "date"); (lit "regexp"); (lit "set");
     (lit "map"); (lit "symbol"); (lit "error"); (lit "weakset")].
Proof. reflexivity. Qed.

Example all_values_are_strings_but_wait :
  allItemsHaveTheSameType [VString (lit "11"); newString (lit "12"); VString (lit "13")] = false.
Proof. reflexivity. Qed.

Example all_infinities_have_same_type :
  allItemsHaveTheSameType
    [VNumber Infinity; VNumber Infinity; VNumber negInfinity] = true.
Proof. reflexivity. Qed.

Example two_values_have_the_same_type :
  everyItemHasAUniqueRealType
    [VBoolean true; VNumber (ofPos 123); VBoolean false] = false.
Proof. reflexivity. Qed.

Example no_repeated_types_in_knownTypes :
  everyItemHasAUniqueRealType knownTypes = true.
Proof. reflexivity. Qed.

(** ** Properties of the specification *)

(** C1, as stated, fails: on [[123, NaN, Infinity]] the function answers
    true although the real-type classifier gives three different tags, and
    on the empty array it answers false although no tag at all is produced. *)
Lemma allItemsHaveTheSameType_realType_card_fails :
  ~ (allItemsHaveTheSameType valuesLikeANumber = true <->
     size (tagSet getRealType valuesLikeANumber) <= 1) /\
  ~ (allItemsHaveTheSameType [] = true <-> size (tagSet getRealType []) <= 1).
Proof.
  split.
  - intros [Hcard _]. specialize (Hcard eq_refl). revert Hcard.
    unfold tagSet. rewrite size_list_to_set; [simpl; lia |].
    apply (bool_decide_unpack _). by vm_compute.
  - intros [_ Htrue]. unfold tagSet in Htrue.
    rewrite fmap_nil, list_to_set_nil, size_empty in Htrue.
    by specialize (Htrue ltac:(lia)).
Qed.

(** C1 (amended): for every non-empty array, [allItemsHaveTheSameType]
    returns true if and only if the set of coarse tags that [getType]
    ([typeof]) gives to the elements has cardinality at most 1. *)
Theorem allItemsHaveTheSameType_coarse_card arr :
  arr <> [] ->
  allItemsHaveTheSameType arr = true <-> size (tagSet getType arr) <= 1.
Proof.
  intros Hne. rewrite allItemsHaveTheSameType_size.
  destruct arr as [|x arr]; [done |].
  assert (size (tagSet getType (x :: arr)) <> 0) as Hpos.
  { apply size_non_empty_iff. unfold tagSet. rewrite fmap_cons, list_to_set_cons.
    intros Hempty. apply (not_elem_of_empty (C:=gset (list N)) (getType x)).
    rewrite <- Hempty. apply elem_of_union_l, elem_of_singleton. reflexivity. }
  lia.
Qed.

Lemma allItemsHaveTheSameType_coarse_card_witness :
  allItemsHaveTheSameType [VNumber (ofPos 11); VNumber (ofPos 12); VNumber (ofPos 13)] = true <->
  size (tagSet getType [VNumber (ofPos 11); VNumber (ofPos 12); VNumber (ofPos 13)]) <= 1.
Proof. apply allItemsHaveTheSameType_coarse_card. discriminate. Defined.

(** C2: on a single-element array [allItemsHaveTheSameType] returns true;
    on the empty array the code returns false, where the claim (and the
    comment 'Return true if all items of array have the same type') asks
    for true. *)
Theorem allItemsHaveTheSameType_empty_singleton :
  allItemsHaveTheSameType [] = false /\
  forall x, allItemsHaveTheSameType [x] = true.
Proof. split; [reflexivity | intros x; reflexivity]. Qed.

(** C3, as stated, fails: a boxed string is classified ['string']. *)
Lemma getRealType_boxed_string_fails :
  ~ (getRealType (newNumber (ofPos 12)) = (lit "number") /\
     getRealType (newString (lit "12")) <> (lit "string")).
Proof. intros [_ Hne]. by apply Hne. Qed.

(** C3 (amended): [getRealType] of a boxed number returns ['number'], and
    [getRealType] of a boxed string returns ['string'], the tag of the
    unboxed string; a boxed boolean likewise returns ['boolean']. *)
Theorem getRealType_boxed n s b :
  getRealType (newNumber n) = (lit "number") /\
  getRealType (newString s) = (lit "string") /\
  getRealType (newString s) = getRealType (VString s) /\
  getRealType (newBoolean b) = getRealType (VBoolean b).
Proof. by split_and!. Qed.

(** C4: on a value whose [typeof] is ['number'], [getRealType] returns
    ['NaN'] on the not-a-number sentinel, ['Infinity'] on either infinity
    and ['number'] on every other number; the three tags differ pairwise. *)
Theorem getRealType_number_cases value :
  typeof value = (lit "number") ->
  (value = VNumber NaN -> getRealType value = (lit "NaN")) /\
  (value = VNumber Infinity \/ value = VNumber negInfinity ->
   getRealType value = (lit "Infinity")) /\
  (value <> VNumber NaN -> value <> VNumber Infinity ->
   value <> VNumber negInfinity -> getRealType value = (lit "number")) /\
  (lit "NaN") <> (lit "Infinity") /\ (lit "NaN") <> (lit "number") /\ (lit "Infinity") <> (lit "number").
Proof.
  intros [n ->]%typeof_number_inv. rewrite getRealType_VNumber.
  split_and!; try discriminate.
  - by intros [= ->].
  - by intros [[= ->]|[= ->]].
  - unfold NaN, Infinity, negInfinity. by destruct n as [|[]| |].
Qed.

Lemma getRealType_number_cases_witness :
  getRealType (VNumber negInfinity) = (lit "Infinity").
Proof.
  apply (getRealType_number_cases (VNumber negInfinity)); [reflexivity | by right].
Defined.

(** C5: the counts of [countRealTypes] add up to the length of the input,
    no tag stands in two entries, the tag of every input element stands in
    exactly one entry, and every count is positive. *)
Theorem countRealTypes_grouped arr :
  let out := countRealTypes arr in
  sum_list out.*2 = length arr /\
  NoDup out.*1 /\
  Forall (fun x =>
            exists c, (getRealType x, c) ∈ out /\
                      forall e, e ∈ out -> e.1 = getRealType x -> e = (getRealType x, c))
         arr /\
  Forall (fun e => 0 < e.2) out.
Proof.
  intros out. subst out. split_and!.
  - apply countRealTypes_sum.
  - apply countRealTypes_NoDup.
  - apply Forall_forall. intros x Hx.
    exists (occurrences (getRealType x) (getRealType <$> arr)). split.
    + apply countRealTypes_elem. split; [done |].
      apply occurrences_pos, list_elem_of_fmap. by exists x.
    + intros [k c] [-> _]%countRealTypes_elem. simpl. by intros ->.
  - apply Forall_forall. intros [k c] [_ Hc]%countRealTypes_elem. done.
Qed.

(** C6, as stated, fails: [compareFn] compares tags with [<], that is code
    unit by code unit. For two objects tagged U+1F600 (code units D83D DE00)
    and U+FFFD the result lists U+1F600 first, D83D being below FFFD, while
    by code points U+FFFD comes before U+1F600. *)
Lemma countRealTypes_code_point_order_fails :
  ~ StronglySorted entryCodePointLe (countRealTypes [astralTagged; replacementTagged]).
Proof.
  assert (countRealTypes [astralTagged; replacementTagged] =
            [([55357; 56832]%N, 1); ([65533%N], 1)]) as -> by reflexivity.
  inversion 1 as [|? ? _ Hall]; subst. inversion Hall as [|? ? Hle _]; subst.
  unfold entryCodePointLe, codePointLe in Hle. cbn in Hle.
  destruct Hle as [Heq|Hlt]; [discriminate |].
  inversion Hlt; subst; lia.
Qed.

(** C6 (amended): the entries returned by [countRealTypes] are sorted
    ascending by tag in the lexicographic order of UTF-16 code units, the
    order of [<] on strings, and strictly so, as no tag repeats; when no
    tag holds a surrogate, this is also the order of code points. *)
Theorem countRealTypes_sorted_by_tag arr :
  StronglySorted entryLe (countRealTypes arr) /\
  StronglySorted entryLt (countRealTypes arr) /\
  (Forall (fun x => noSurrogates (getRealType x) = true) arr ->
   StronglySorted entryCodePointLe (countRealTypes arr)).
Proof.
  split; [apply entryLt_entryLe, countRealTypes_sorted |].
  split; [apply countRealTypes_sorted |].
  intros Hbmp. eapply StronglySorted_impl_elem;
    [| apply entryLt_entryLe, countRealTypes_sorted].
  intros [k c] [k' c'] Hk Hk' Hle. unfold entryCodePointLe, codePointLe. cbn [fst].
  assert (forall k0 c0, (k0, c0) ∈ countRealTypes arr -> codePoints k0 = k0) as Hcp.
  { intros k0 c0 [-> Hpos]%countRealTypes_elem.
    apply occurrences_pos, list_elem_of_fmap in Hpos as (x & -> & Hx).
    apply codePoints_noSurrogates. by apply (proj1 (Forall_forall _ _) Hbmp). }
  by rewrite (Hcp _ _ Hk), (Hcp _ _ Hk').
Qed.

Lemma countRealTypes_sorted_by_tag_witness :
  StronglySorted entryCodePointLe (countRealTypes countFixture).
Proof.
  apply (proj2 (proj2 (countRealTypes_sorted_by_tag countFixture))).
  by repeat constructor.
Defined.

(** C7: [countRealTypes] returns the same result on any two arrays that are
    permutations of each other; on [[true, null, !null, !!null, {}]] and on
    each of its reorderings the result is
    [[('boolean', 3), ('null', 1), ('object', 1)]]. *)
Theorem countRealTypes_permutation_invariant :
  (forall arr arr', arr ≡ₚ arr' -> countRealTypes arr = countRealTypes arr') /\
  countRealTypes countFixture = [((lit "boolean"), 3); ((lit "null"), 1); ((lit "object"), 1)] /\
  (forall arr', countFixture ≡ₚ arr' ->
                countRealTypes arr' = [((lit "boolean"), 3); ((lit "null"), 1); ((lit "object"), 1)]).
Proof.
  split_and!.
  - apply countRealTypes_Permutation.
  - reflexivity.
  - intros arr' Hp. by rewrite <- (countRealTypes_Permutation _ _ Hp).
Qed.

(** The reordering used by the test 'Counted unique types are sorted'. *)
Lemma countRealTypes_permutation_invariant_witness :
  countRealTypes [objectLiteral; VNull; VBoolean true; JS.not VNull; JS.not (JS.not VNull)] =
    [((lit "boolean"), 3); ((lit "null"), 1); ((lit "object"), 1)].
Proof.
  apply (proj2 (proj2 countRealTypes_permutation_invariant)).
  unfold countFixture.
  symmetry. etrans; [apply (Permutation_cons_append [_; _; _; _]) |].
  simpl. apply perm_swap.
Defined.

(** C8: [everyItemHasAUniqueRealType] returns true if and only if the
    number of distinct tags of the elements equals the length of the array,
    that is if and only if no two elements share a tag; on the empty array
    it returns true. *)
Theorem everyItemHasAUniqueRealType_distinct arr :
  (everyItemHasAUniqueRealType arr = true <->
   size (tagSet getRealType arr) = length arr) /\
  (everyItemHasAUniqueRealType arr = true <->
   forall i j x y, arr !! i = Some x -> arr !! j = Some y ->
                   getRealType x = getRealType y -> i = j) /\
  everyItemHasAUniqueRealType [] = true.
Proof.
  split_and!; [apply everyItemHasAUniqueRealType_size | | reflexivity].
  rewrite everyItemHasAUniqueRealType_size. unfold tagSet.
  rewrite <- (length_fmap getRealType arr), size_list_to_set_NoDup, NoDup_alt.
  split.
  - intros Hnd i j x y Hi Hj Hxy. apply (Hnd i j (getRealType x)).
    + by rewrite list_lookup_fmap, Hi.
    + by rewrite list_lookup_fmap, Hj, Hxy.
  - intros Hu i j t Hi Hj. rewrite list_lookup_fmap in Hi, Hj.
    destruct (arr !! i) as [x|] eqn:Ex; [| done].
    destruct (arr !! j) as [y|] eqn:Ey; [| done].
    simpl in Hi, Hj. apply (Hu i j x y); congruence.
Qed.

(** C9: the classifications of the literals [true], [123], ["whoo"], [[]],
    [{}], [undefined] and [null]. *)
Theorem getRealType_literals :
  getRealType (VBoolean true) = (lit "boolean") /\
  getRealType (VNumber (ofPos 123)) = (lit "number") /\
  getRealType (VString (lit "whoo")) = (lit "string") /\
  getRealType arrayLiteral = (lit "array") /\
  getRealType objectLiteral = (lit "object") /\
  getRealType VUndefined = (lit "undefined") /\
  getRealType VNull = (lit "null").
Proof. by split_and!. Qed.

(** C10: each of the seven typed-array views is an object that passes none
    of the [instanceof] tests, so its tag is the lower-cased tag descriptor;
    the seven tags differ pairwise and from ['array']. *)
Theorem getRealType_typed_arrays :
  Forall (fun v =>
            typeof v = (lit "object") /\
            Forall (fun c => instanceof v c = false) testedCtors /\
            getRealType v = toLowerCase (slice (Object_prototype_toString v) 8 (-1)))
         typedArrayViews /\
  getRealTypesOfItems typedArrayViews =
    [(lit "int8array"); (lit "uint8array"); (lit "int16array"); (lit "uint16array");
     (lit "int32array"); (lit "uint32array"); (lit "uint8clampedarray")] /\
  NoDup ((lit "array") :: getRealTypesOfItems typedArrayViews) /\
  everyItemHasAUniqueRealType typedArrayViews = true.
Proof.
  split_and!.
  - unfold typedArrayViews, testedCtors. by repeat constructor.
  - reflexivity.
  - apply (bool_decide_unpack _). vm_compute. exact I.
  - reflexivity.
Qed.

(** ** Further properties of the code *)

(** *** Strings: the tag descriptor round trip and lower-casing *)

Section Strings.

Lemma slice_wrapped (t : list N) :
  slice (lit "[object " ++ t ++ lit "]") 8 (-1) = t.
Proof.
  unfold slice. rewrite !length_app. cbn [lit length].
  set (n := length t).
  replace (Z.to_nat _) with n by (cbn; lia).
  replace (Z.to_nat _) with 8 by (cbn; lia).
  cbn [drop app]. apply take_app_length.
Qed.

(** X1: [slice(8, -1)] gives back exactly the tag descriptor that
    [Object.prototype.toString] wrapped in ['[object '] and [']'], whatever
    the object. *)
Theorem slice_object_descriptor (o : Obj) :
  slice (Object_prototype_toString (VObject o)) 8 (-1) = descriptor o.
Proof. apply slice_wrapped. Qed.







End Strings.

(** *** The classifier beyond numbers *)

Section ClassifierMore.

Lemma toString_object o :
  Object_prototype_toString (VObject o) = lit "[object " ++ descriptor o ++ lit "]".
Proof. reflexivity. Qed.


Lemma getRealType_nonCallable o :
  callable o = false ->
  getRealType (VObject o) =
    match firstInstance o with
    | Some tag => tag
    | None => toLowerCase (descriptor o)
    end.
Proof.
  intros Hc. unfold getRealType. cbn [typeof]. rewrite Hc.
  rewrite toString_object, slice_wrapped.
  unfold firstInstance, instanceTable, instanceof. cbn [List.find fst snd].
  repeat case_bool_decide; try reflexivity; done.
Qed.

(** X2: on an object without [[Call]] the classifier answers with the first
    row of its [instanceof] table that the prototype chain meets and, when
    none does, with the lower-cased tag descriptor: the [@@toStringTag] if
    there is one, the built-in tag otherwise. *)
Theorem getRealType_object_table o :
  callable o = false ->
  getRealType (VObject o) =
    match firstInstance o with
    | Some tag => tag
    | None => toLowerCase (descriptor o)
    end.
Proof. apply getRealType_nonCallable. Qed.

Lemma getRealType_object_table_witness :
  getRealType objectLiteral = toLowerCase (lit "Object").
Proof. apply (getRealType_object_table (mkObj Ordinary false [Object_] None)). reflexivity. Defined.


(** X3: strings, booleans, [undefined], symbols, functions and bigints are
    given their [typeof] tag unchanged; for a bigint, which the chain of
    [typeof] tests does not list, the fallback of the object branch yields
    it. *)
Theorem getRealType_verbatim value :
  typeof value ∈ [(lit "string"); (lit "boolean"); (lit "undefined"); (lit "symbol"); (lit "function"); (lit "bigint")] ->
  getRealType value = typeof value.
Proof.
  rewrite !elem_of_cons, elem_of_nil.
  destruct value as [| | b | n | s | d | z | o]; try reflexivity;
    [cbn; intuition discriminate .. |].
  unfold getRealType. cbn [typeof]. destruct (callable o); [reflexivity |].
  intuition discriminate.
Qed.

Lemma getRealType_verbatim_witness :
  getRealType (VBigInt 10) = (lit "bigint").
Proof.
  apply (getRealType_verbatim (VBigInt 10)).
  repeat constructor.
Defined.



End ClassifierMore.

(** *** The homogeneity and uniqueness checks *)

Section AggregatesMore.

Lemma everyItemHasAUniqueRealType_NoDup arr :
  everyItemHasAUniqueRealType arr = true <-> NoDup (getRealTypesOfItems arr).
Proof.
  rewrite everyItemHasAUniqueRealType_size. unfold tagSet.
  rewrite <- (length_fmap getRealType arr). apply size_list_to_set_NoDup.
Qed.

Lemma bool_eq_iff (a b : bool) : (a = true <-> b = true) -> a = b.
Proof. destruct a, b; intuition congruence. Qed.

(** X6: [allItemsHaveTheSameType] returns true exactly on the arrays that
    have a first element whose [typeof] every further element shares. *)
Theorem allItemsHaveTheSameType_pointwise arr :
  allItemsHaveTheSameType arr = true <->
  exists x rest, arr = x :: rest /\ Forall (fun v => getType v = getType x) rest.
Proof.
  rewrite allItemsHaveTheSameType_size. unfold tagSet. split.
  - destruct arr as [|x rest].
    + rewrite fmap_nil, list_to_set_nil, size_empty. discriminate.
    + intros Hsz. exists x, rest. split; [done |].
      apply Forall_forall. intros v Hv.
      apply (size_singleton_inv _ _ _ Hsz); apply elem_of_list_to_set, list_elem_of_fmap.
      * exists v. split; [done | by right].
      * exists x. split; [done | left].
  - intros (x & rest & -> & Hall).
    replace (list_to_set (getType <$> x :: rest) : gset (list N)) with ({[getType x]} : gset (list N));
      [apply size_singleton |].
    apply set_eq. intros t.
    rewrite elem_of_singleton, elem_of_list_to_set, list_elem_of_fmap. split.
    + intros ->. exists x. split; [done | left].
    + intros (v & -> & [->|Hv]%elem_of_cons); [done |].
      by apply (proj1 (Forall_forall _ _) Hall).
Qed.

(** X7: the answer of [allItemsHaveTheSameType] depends only on which
    [typeof] tags occur among the elements, not on their order or on how
    often each occurs. *)
Theorem allItemsHaveTheSameType_same_tags arr arr' :
  (forall t, t ∈ getTypesOfItems arr <-> t ∈ getTypesOfItems arr') ->
  allItemsHaveTheSameType arr = allItemsHaveTheSameType arr'.
Proof.
  intros Htags. apply bool_eq_iff. rewrite !allItemsHaveTheSameType_size.
  replace (tagSet getType arr') with (tagSet getType arr); [done |].
  apply set_eq. intros t. unfold tagSet. rewrite !elem_of_list_to_set. apply Htags.
Qed.

Lemma allItemsHaveTheSameType_same_tags_witness :
  allItemsHaveTheSameType [VString (lit "a"); VNull; VString (lit "b")] =
  allItemsHaveTheSameType [VNull; VString (lit "c")].
Proof.
  apply allItemsHaveTheSameType_same_tags. intros t. cbn.
  rewrite !elem_of_cons, !elem_of_nil. tauto.
Defined.

(** X8: [everyItemHasAUniqueRealType] gives the same answer on an array and
    on each of its permutations. *)
Theorem everyItemHasAUniqueRealType_Permutation arr arr' :
  arr ≡ₚ arr' ->
  everyItemHasAUniqueRealType arr = everyItemHasAUniqueRealType arr'.
Proof.
  intros Hp. apply bool_eq_iff. rewrite !everyItemHasAUniqueRealType_NoDup.
  unfold getRealTypesOfItems. change (NoDup (getRealType <$> arr) <-> NoDup (getRealType <$> arr')).
  by rewrite Hp.
Qed.

Lemma everyItemHasAUniqueRealType_Permutation_witness :
  everyItemHasAUniqueRealType [VNull; VUndefined] =
  everyItemHasAUniqueRealType [VUndefined; VNull].
Proof. apply everyItemHasAUniqueRealType_Permutation. apply perm_swap. Defined.

(** X9: when the items of an array have pairwise different real types, so
    have the items of every array obtained from it by dropping items. *)
Theorem everyItemHasAUniqueRealType_sublist arr arr' :
  arr' `sublist_of` arr ->
  everyItemHasAUniqueRealType arr = true ->
  everyItemHasAUniqueRealType arr' = true.
Proof.
  rewrite !everyItemHasAUniqueRealType_NoDup. intros Hsub Hnd.
  eapply sublist_NoDup; [exact Hnd |].
  unfold getRealTypesOfItems. change (getRealType <$> arr' `sublist_of` getRealType <$> arr).
  by apply fmap_sublist.
Qed.

Lemma everyItemHasAUniqueRealType_sublist_witness :
  everyItemHasAUniqueRealType [VBoolean true; VString (lit "123")] = true.
Proof.
  apply (everyItemHasAUniqueRealType_sublist
           [VBoolean true; VNumber (ofPos 123); VString (lit "123")]); [| reflexivity].
  apply sublist_skip, sublist_cons, sublist_skip, sublist_nil.
Defined.

End AggregatesMore.

(** *** The comparator and the sort it drives *)

Section ComparatorMore.

Lemma lexLe_trans a b c : lexLe a b -> lexLe b c -> lexLe a c.
Proof.
  intros [->|Hab] [->|Hbc]; [by left | by right | by right |].
  right. by eapply lexLt_trans.
Qed.

Lemma compareFn_cases a b :
  (lexLt a.1 b.1 /\ compareFn a b = (-1)%Z) \/
  (a.1 = b.1 /\ compareFn a b = 0%Z) \/
  (lexLt b.1 a.1 /\ compareFn a b = 1%Z).
Proof.
  unfold compareFn.
  destruct (stringLt a.1 b.1) eqn:Hab; [left; by apply stringLt_lexLt in Hab |].
  destruct (stringLt b.1 a.1) eqn:Hba; [right; right; by apply stringLt_lexLt in Hba |].
  right. left. split; [by apply stringLt_trichotomy | done].
Qed.

Lemma lexLt_asym a b : lexLt a b -> lexLt b a -> False.
Proof. intros Hab Hba. apply (lexLt_irrefl a). by eapply lexLt_trans. Qed.

(** X10: [compareFn] looks at the tags only: it returns -1 exactly when the
    first tag comes before the second, 1 exactly when it comes after, and 0
    exactly when the two tags are equal, whatever the counts. *)
Theorem compareFn_sign a b :
  (compareFn a b = (-1)%Z <-> lexLt a.1 b.1) /\
  (compareFn a b = 0%Z <-> a.1 = b.1) /\
  (compareFn a b = 1%Z <-> lexLt b.1 a.1).
Proof.
  destruct (compareFn_cases a b) as [[H ->]|[[H ->]|[H ->]]].
  - split_and!; split; try done; intros H'.
    + rewrite H' in H. by apply lexLt_irrefl in H.
    + destruct (lexLt_asym _ _ H H').
  - split_and!; split; try done; intros H'; rewrite H in H'; by apply lexLt_irrefl in H'.
  - split_and!; split; try done; intros H'.
    + destruct (lexLt_asym _ _ H H').
    + rewrite H' in H. by apply lexLt_irrefl in H.
Qed.

(** X11: [compareFn] is a consistent comparator, as [Array.prototype.sort]
    asks for: swapping the arguments negates the result, and "not greater"
    is transitive. *)
Theorem compareFn_consistent a b c :
  compareFn b a = (- compareFn a b)%Z /\
  ((compareFn a b <= 0)%Z -> (compareFn b c <= 0)%Z -> (compareFn a c <= 0)%Z).
Proof.
  split.
  - destruct (compareFn_cases a b) as [[H ->]|[[H ->]|[H ->]]];
      destruct (compareFn_cases b a) as [[H' ->]|[[H' ->]|[H' ->]]]; try done;
      try (destruct (lexLt_asym _ _ H H'));
      try (rewrite H' in H; by apply lexLt_irrefl in H);
      try (rewrite H in H'; by apply lexLt_irrefl in H').
  - destruct (compareFn_cases a b) as [[Hab ->]|[[Hab ->]|[Hab ->]]]; [| |lia];
      (destruct (compareFn_cases b c) as [[Hbc ->]|[[Hbc ->]|[Hbc ->]]]; [| |lia]);
      intros _ _;
      (destruct (compareFn_cases a c) as [[Hac ->]|[[Hac ->]|[Hac ->]]]; [lia | lia |]);
      exfalso.
    + apply (lexLt_asym _ _ Hac). by eapply lexLt_trans.
    + rewrite <- Hbc in Hac. by apply (lexLt_asym _ _ Hac).
    + rewrite Hab in Hac. by apply (lexLt_asym _ _ Hac).
    + rewrite Hab, Hbc in Hac. by apply lexLt_irrefl in Hac.
Qed.

Lemma compareFn_consistent_witness :
  (compareFn ((lit "boolean"), 3%nat) ((lit "object"), 1%nat) <= 0)%Z.
Proof.
  apply (proj2 (compareFn_consistent ((lit "boolean"), 3) ((lit "null"), 1) ((lit "object"), 1)));
    by vm_compute.
Defined.

Lemma sortInsert_sorted_le x l :
  StronglySorted entryLe l -> StronglySorted entryLe (sortInsert compareFn x l).
Proof.
  induction 1 as [|y l Hl IH Hy]; simpl.
  - repeat constructor.
  - destruct (0 <? compareFn x y)%Z eqn:E.
    + apply Z.ltb_lt in E. constructor; [done |].
      rewrite sortInsert_Permutation. constructor; [| done].
      destruct (compareFn_cases x y) as [[_ Hc]|[[_ Hc]|[Hlt _]]]; [lia | lia |].
      by right.
    + apply Z.ltb_ge in E.
      assert (entryLe x y) as Hxy.
      { destruct (compareFn_cases x y) as [[Hlt _]|[[Heq _]|[_ Hc]]]; [by right | by left | lia]. }
      constructor; [by constructor |]. constructor; [done |].
      eapply Forall_impl; [exact Hy |]. intros z Hz. by eapply lexLe_trans.
Qed.

(** X12: sorting any list of entries with [compareFn], tags repeated or
    not, rearranges the entries into ascending order of their tags. *)
Theorem sort_compareFn_sorted (entries : list (list N * nat)) :
  sort compareFn entries ≡ₚ entries /\
  StronglySorted entryLe (sort compareFn entries).
Proof.
  split; [apply sort_Permutation |].
  induction entries as [|x l IH]; simpl; [constructor |].
  by apply sortInsert_sorted_le.
Qed.

End ComparatorMore.

(** *** The grouped counts *)

Section GroupingMore.

Lemma occurrences_filter k arr :
  occurrences k (getRealType <$> arr) =
  length (filter (fun x => getRealType x = k) arr).
Proof.
  unfold occurrences. induction arr as [|x arr IH]; [done |].
  rewrite fmap_cons, !filter_cons. repeat case_decide; simpl; congruence.
Qed.

Lemma occurrences_app k l1 l2 :
  occurrences k (l1 ++ l2) = occurrences k l1 + occurrences k l2.
Proof. unfold occurrences. by rewrite filter_app, length_app. Qed.

Lemma countOf_countRealTypes k arr :
  countOf k (countRealTypes arr) = occurrences k (getRealType <$> arr).
Proof.
  unfold countOf. destruct (JSMap.get k (countRealTypes arr)) as [c|] eqn:E; simpl.
  - apply Map_get_elem, countRealTypes_elem in E. by destruct E.
  - destruct (occurrences k (getRealType <$> arr)) as [|n] eqn:Hocc; [done |].
    assert ((k, S n) ∈ countRealTypes arr) as Hin
      by (apply countRealTypes_elem; split; [done | lia]).
    apply Map_elem_get in Hin; [congruence | apply countRealTypes_NoDup].
Qed.

Lemma countRealTypes_keys arr k :
  k ∈ (countRealTypes arr).*1 <-> k ∈ getRealType <$> arr.
Proof.
  split.
  - intros ([k' c] & -> & Hin)%list_elem_of_fmap.
    apply countRealTypes_elem in Hin as [-> Hc]. by apply occurrences_pos.
  - intros Hpos%occurrences_pos. apply list_elem_of_fmap.
    exists (k, occurrences k (getRealType <$> arr)). split; [done |].
    by apply countRealTypes_elem.
Qed.

(** X13: an entry [(k, c)] is in the result of [countRealTypes] exactly
    when [c] is the number of elements whose real type is [k] and at least
    one element has it. *)
Theorem countRealTypes_exact_counts arr k c :
  (k, c) ∈ countRealTypes arr <->
  c = length (filter (fun x => getRealType x = k) arr) /\ 0 < c.
Proof. by rewrite countRealTypes_elem, occurrences_filter. Qed.

Lemma countRealTypes_length arr :
  length (countRealTypes arr) = size (tagSet getRealType arr).
Proof.
  rewrite <- (length_fmap fst).
  rewrite <- (size_list_to_set (C:=gset (list N))) by apply countRealTypes_NoDup.
  f_equal. apply set_eq. intros k. unfold tagSet.
  by rewrite !elem_of_list_to_set, countRealTypes_keys.
Qed.

(** X14: the result of [countRealTypes] has one entry per real type that
    occurs in the array and no entry for any other tag, hence never more
    entries than the array has elements. *)
Theorem countRealTypes_tags arr :
  (forall k, k ∈ (countRealTypes arr).*1 <-> exists x, x ∈ arr /\ getRealType x = k) /\
  length (countRealTypes arr) = size (tagSet getRealType arr) /\
  length (countRealTypes arr) <= length arr.
Proof.
  pose proof (countRealTypes_length arr) as Hlen.
  split_and!; [| done |].
  - intros k. rewrite countRealTypes_keys, list_elem_of_fmap.
    split; intros (x & ? & ?); exists x; done.
  - rewrite Hlen. unfold tagSet. rewrite <- (length_fmap getRealType arr).
    apply size_list_to_set_le.
Qed.

(** X15: [countRealTypes] returns the empty array on the empty array and on
    no other. *)
Theorem countRealTypes_empty arr : countRealTypes arr = [] <-> arr = [].
Proof.
  split; [| by intros ->].
  destruct arr as [|x arr]; [done |]. intros Hout.
  assert (getRealType x ∈ (countRealTypes (x :: arr)).*1) as Hin
    by (apply countRealTypes_keys; rewrite fmap_cons; left).
  rewrite Hout in Hin. by apply elem_of_nil in Hin.
Qed.

(** X16: on a non-empty array whose elements all have the real type [t] the
    result is the single entry [(t, length)]. *)
Theorem countRealTypes_homogeneous arr t :
  arr <> [] ->
  Forall (fun x => getRealType x = t) arr ->
  countRealTypes arr = [(t, length arr)].
Proof.
  intros Hne Hall.
  assert (forall k, occurrences k (getRealType <$> arr) = if decide (k = t) then length arr else 0)
    as Hocc.
  { intros k. rewrite occurrences_filter. clear Hne.
    induction Hall as [|x arr Hx Hall IH]; [by case_decide |].
    rewrite filter_cons. simpl. rewrite Hx.
    repeat case_decide; simpl; try congruence; lia. }
  apply Permutation_singleton_r, NoDup_Permutation.
  - eapply NoDup_fmap_1, countRealTypes_NoDup.
  - apply NoDup_singleton.
  - intros [k c]. rewrite countRealTypes_elem, Hocc, list_elem_of_singleton.
    case_decide as Hk.
    + subst k. split; [by intros [-> _] | intros [= ->]]. split; [done |].
      destruct arr; [done | simpl; lia].
    + split; [lia | intros [= -> _]; done].
Qed.

Lemma countRealTypes_homogeneous_witness :
  countRealTypes [VNumber (ofPos 11); newNumber (ofPos 12)] = [((lit "number"), 2)].
Proof.
  apply (countRealTypes_homogeneous [VNumber (ofPos 11); newNumber (ofPos 12)] (lit "number"));
    [discriminate | by repeat constructor].
Defined.

(** X17: counting over a concatenation adds up: for every tag, the count
    held for it by the result on [a ++ b] is the sum of the counts held by
    the results on [a] and on [b] (0 where the tag has no entry). *)
Theorem countRealTypes_app a b k :
  countOf k (countRealTypes (a ++ b)) =
  countOf k (countRealTypes a) + countOf k (countRealTypes b).
Proof. by rewrite !countOf_countRealTypes, fmap_app, occurrences_app. Qed.

(** X18: the result of [countRealTypes] is already in the order of
    [compareFn]: sorting it again leaves it as it is. *)
Theorem countRealTypes_sort_fixed arr :
  sort compareFn (countRealTypes arr) = countRealTypes arr.
Proof.
  apply (StronglySorted_unique entryLt).
  - apply sort_sorted, countRealTypes_NoDup.
  - apply countRealTypes_sorted.
  - apply sort_Permutation.
Qed.

Lemma sum_list_ones (cs : list nat) :
  Forall (fun c => 0 < c) cs ->
  sum_list cs = length cs <-> Forall (fun c => c = 1) cs.
Proof.
  intros Hpos.
  assert (length cs <= sum_list cs) as Hle by (induction Hpos; simpl; lia).
  revert Hle. induction Hpos as [|c cs Hc Hpos IH]; simpl; intros Hle.
  - split; [constructor | done].
  - assert (length cs <= sum_list cs) as Hle' by (clear -Hpos; induction Hpos; simpl; lia).
    rewrite Forall_cons. specialize (IH Hle'). split.
    + intros Hs. assert (c = 1) by lia. split; [done | apply IH; lia].
    + intros [-> Hall]. apply IH in Hall. lia.
Qed.

(** X19: [everyItemHasAUniqueRealType] agrees with [countRealTypes]: it
    returns true exactly when every count is 1, that is when the grouped
    result has as many entries as the array has elements. *)
Theorem everyItemHasAUniqueRealType_counts arr :
  (everyItemHasAUniqueRealType arr = true <->
   Forall (fun e => e.2 = 1) (countRealTypes arr)) /\
  (everyItemHasAUniqueRealType arr = true <->
   length (countRealTypes arr) = length arr).
Proof.
  assert (everyItemHasAUniqueRealType arr = true <->
          length (countRealTypes arr) = length arr) as Hlen.
  { rewrite everyItemHasAUniqueRealType_size.
    by rewrite <- countRealTypes_length. }
  split; [| done]. rewrite Hlen.
  rewrite <- (countRealTypes_sum arr), <- (length_fmap snd (countRealTypes arr)).
  assert (Forall (fun c => 0 < c) (countRealTypes arr).*2) as Hpos.
  { apply Forall_fmap, Forall_forall. intros [k c] [_ Hc]%countRealTypes_elem. done. }
  rewrite (symmetry_iff (=)), (sum_list_ones _ Hpos), Forall_fmap. done.
Qed.

End GroupingMore.

(** *** The deep comparison of the test utilities *)

Section DeepEquality.

Lemma Data_nested_ind (P : Data -> Prop) :
  P DUndefined -> P DNull -> (forall b, P (DBoolean b)) ->
  (forall n, P (DNumber n)) -> (forall s, P (DString s)) ->
  (forall items, Forall P items -> P (DArray items)) ->
  forall d, P d.
Proof.
  intros HU HN HB HNum HS HA. fix IH 1.
  intros [| | b | n | s | items];
    [exact HU | exact HN | exact (HB b) | exact (HNum n) | exact (HS s) |].
  apply HA. revert items. fix IHl 1. intros [|x l]; constructor; [apply IH | apply IHl].
Qed.

Lemma forallb_Forall {A} (f : A -> bool) (l : list A) :
  forallb f l = true <-> Forall (fun x => f x = true) l.
Proof.
  induction l as [|x l IH]; simpl; [split; [constructor | done] |].
  by rewrite andb_true_iff, Forall_cons, IH.
Qed.

Lemma numberStrictEq_sym x y : numberStrictEq x y = numberStrictEq y x.
Proof.
  unfold numberStrictEq, SFeqb, SFcompare.
  destruct x as [s|s| |s m e], y as [s'|s'| |s' m' e']; try reflexivity;
    destruct s, s'; try reflexivity;
    change (Pos.compare_cont Eq m m') with (Pos.compare m m');
    change (Pos.compare_cont Eq m' m) with (Pos.compare m' m);
    rewrite (Z.compare_antisym e e'), (Pos.compare_antisym m m');
    destruct (Z.compare e e'), (Pos.compare m m'); reflexivity.
Qed.

Lemma numberStrictEq_refl x : numberStrictEq x x = true <-> x <> S754_nan.
Proof.
  unfold numberStrictEq, SFeqb, SFcompare.
  destruct x as [s|s| |s m e]; try destruct s; try done.
  - change (Pos.compare_cont Eq m m) with (Pos.compare m m).
    by rewrite Z.compare_refl, Pos.compare_refl.
  - change (Pos.compare_cont Eq m m) with (Pos.compare m m).
    by rewrite Z.compare_refl, Pos.compare_refl.
Qed.

Lemma numberStrictEq_countNumber a b :
  numberStrictEq (countNumber a) (countNumber b) = true <-> a = b.
Proof.
  destruct a as [|a], b as [|b]; try done.
  unfold numberStrictEq, SFeqb, SFcompare, countNumber.
  change (Pos.compare_cont Eq ?p ?q) with (Pos.compare p q). cbn [Z.compare].
  destruct (Pos.compare_spec (Pos.of_nat (S a)) (Pos.of_nat (S b))) as [H|H|H].
  - apply Nat2Pos.inj in H; done.
  - split; [done |]. intros Heq. rewrite Heq in H. lia.
  - split; [done |]. intros Heq. rewrite Heq in H. lia.
Qed.

Lemma areEqual_array xs ys :
  areEqual (DArray xs) (DArray ys) = (length xs =? length ys) && everyFrom xs ys 0.
Proof.
  cbn [areEqual]. f_equal. generalize 0.
  induction xs as [|x xs IH]; intros i; simpl; [done | by rewrite IH].
Qed.

Lemma everyFrom_Forall2 xs ys i :
  length xs + i = length ys ->
  everyFrom xs ys i = true <-> Forall2 (fun x y => areEqual x y = true) xs (drop i ys).
Proof.
  revert i. induction xs as [|x xs IH]; intros i Hlen; simpl in *.
  - rewrite drop_ge by lia. split; [constructor | done].
  - destruct (lookup_lt_is_Some_2 ys i) as [y Hy]; [lia |].
    rewrite (drop_S _ _ _ Hy), Forall2_cons, andb_true_iff, IH by lia.
    unfold at_index. by rewrite (nth_lookup_Some _ _ _ _ Hy).
Qed.

Lemma areEqual_array_Forall2 xs ys :
  areEqual (DArray xs) (DArray ys) = true <->
  Forall2 (fun x y => areEqual x y = true) xs ys.
Proof.
  rewrite areEqual_array, andb_true_iff, Nat.eqb_eq. split.
  - intros [Hlen Hev]. apply (everyFrom_Forall2 xs ys 0) in Hev; [done | lia].
  - intros HF. pose proof (Forall2_length _ _ _ HF) as Hlen.
    split; [done |]. apply (everyFrom_Forall2 xs ys 0); [lia | done].
Qed.

Lemma areEqual_not_array a b :
  (forall xs ys, a = DArray xs -> b = DArray ys -> False) ->
  areEqual a b = strictEq a b.
Proof.
  intros H. destruct a, b; try reflexivity. destruct (H _ _ eq_refl eq_refl).
Qed.

(** X20: [areEqual] is symmetric: comparing the expected result with the
    actual one gives the same answer as comparing the actual with the
    expected. *)
Theorem areEqual_sym a b : areEqual a b = areEqual b a.
Proof.
  revert b. induction a as [| | x | x | x | xs IH] using Data_nested_ind;
    intros [| | y | y | y | ys]; try reflexivity.
  - cbn. by destruct x, y.
  - cbn. apply numberStrictEq_sym.
  - cbn. apply stringEq_sym.
  - apply bool_eq_iff. rewrite !areEqual_array_Forall2, <- (Forall2_flip _ xs ys).
    revert ys. induction IH as [|x xs Hx IH IHxs]; intros ys.
    + split; inversion 1; constructor.
    + destruct ys as [|y ys]; [split; inversion 1 |].
      rewrite !Forall2_cons, IHxs. unfold flip. by rewrite (Hx y).
Qed.

(** X21: a result is [areEqual] to itself exactly when no NaN occurs in it,
    at any depth. *)
Theorem areEqual_refl_iff a : areEqual a a = true <-> nanFree a = true.
Proof.
  induction a as [| | x | x | x | xs IH] using Data_nested_ind; try done.
  - cbn [areEqual strictEq]. by destruct x.
  - cbn [areEqual strictEq nanFree]. rewrite numberStrictEq_refl. by destruct x.
  - cbn [areEqual strictEq]. by rewrite stringEq_refl.
  - rewrite areEqual_array_Forall2. cbn [nanFree]. rewrite forallb_Forall.
    induction IH as [|x xs Hx IH IHxs]; [split; constructor |].
    rewrite Forall2_cons, Forall_cons, IHxs, Hx. done.
Qed.

(** X22: two arrays are [areEqual] exactly when they have the same length
    and their items are [areEqual] position by position; an array is never
    [areEqual] to a result that is not an array. *)
Theorem areEqual_arrays xs b :
  (forall ys, areEqual (DArray xs) (DArray ys) = true <->
              length xs = length ys /\
              forall i x y, xs !! i = Some x -> ys !! i = Some y -> areEqual x y = true) /\
  ((forall ys, b <> DArray ys) -> areEqual (DArray xs) b = false).
Proof.
  split.
  - intros ys. by rewrite areEqual_array_Forall2, Forall2_same_length_lookup.
  - intros Hb. destruct b; try reflexivity. by destruct (Hb items).
Qed.

(** X23: on results that hold no Number, [areEqual] decides equality: it
    returns true exactly when the two results are the same. *)
Theorem areEqual_numberFree a b :
  numberFree a = true -> areEqual a b = true <-> a = b.
Proof.
  revert b. induction a as [| | x | x | x | xs IH] using Data_nested_ind;
    intros b Hnf; try discriminate Hnf.
  - destruct b; done.
  - destruct b; done.
  - destruct b as [| | y | | |]; try done. cbn. destruct x, y; done.
  - destruct b as [| | | | y |]; try done. cbn. rewrite stringEq_eq.
    split; [by intros -> | by intros [= ->]].
  - destruct b as [| | | | | ys]; try done.
    rewrite areEqual_array_Forall2. cbn [numberFree] in Hnf.
    rewrite forallb_Forall in Hnf.
    assert (Forall2 (fun x y => areEqual x y = true) xs ys <-> xs = ys) as ->;
      [| split; [by intros -> | by intros [= ->]]].
    revert ys. induction IH as [|x xs Hx IH IHxs]; intros ys.
    + split; [by inversion 1 | intros <-; constructor].
    + apply Forall_cons in Hnf as [Hnx Hnxs].
      destruct ys as [|y ys]; [split; [inversion 1 | done] |].
      rewrite Forall2_cons, (Hx y Hnx), (IHxs Hnxs ys).
      split; [by intros [-> ->] | by intros [= -> ->]].
Qed.

Lemma areEqual_numberFree_witness :
  areEqual (tagsData [(lit "boolean"); (lit "number")]) (tagsData [(lit "boolean"); (lit "number")]) = true.
Proof. apply areEqual_numberFree; reflexivity. Defined.

Lemma areEqual_entry e1 e2 :
  areEqual (DArray [DString e1.1; DNumber (countNumber e1.2)])
           (DArray [DString e2.1; DNumber (countNumber e2.2)]) = true <-> e1 = e2.
Proof.
  destruct e1 as [k1 c1], e2 as [k2 c2]. cbn [areEqual strictEq length Nat.eqb fst snd at_index nth].
  rewrite !andb_true_iff, stringEq_eq, numberStrictEq_countNumber.
  split; [by intros (_ & -> & -> & _) | by intros [= -> ->]].
Qed.

Lemma areEqual_entries r1 r2 :
  areEqual (entriesData r1) (entriesData r2) = true <-> r1 = r2.
Proof.
  unfold entriesData. rewrite areEqual_array_Forall2, Forall2_fmap.
  revert r2. induction r1 as [|e1 r1 IH]; intros r2.
  - split; [by inversion 1 | intros <-; constructor].
  - destruct r2 as [|e2 r2]; [split; [inversion 1 | done] |].
    rewrite Forall2_cons, areEqual_entry, IH.
    split; [by intros [-> ->] | by intros [= -> ->]].
Qed.

(** X24: on the results of [countRealTypes], handed over as arrays of
    [[tag, count]] pairs, [areEqual] returns true exactly when the two
    results are the same list of entries. *)
Theorem areEqual_entriesData r1 r2 :
  areEqual (entriesData r1) (entriesData r2) = true <-> r1 = r2.
Proof. apply areEqual_entries. Qed.

(** X25: a test that compares the grouped counts of an array with those of
    any permutation of it reports [OK] and nothing else. *)
Theorem test_countRealTypes_Permutation whatWeTest arr arr' :
  arr ≡ₚ arr' ->
  test whatWeTest (entriesData (countRealTypes arr)) (entriesData (countRealTypes arr')) =
    [console_log (lit "[OK] " ++ whatWeTest ++ newline)].
Proof.
  intros Hp. unfold test.
  by rewrite (proj2 (areEqual_entries _ _) (countRealTypes_Permutation _ _ Hp)).
Qed.

Lemma test_countRealTypes_Permutation_witness :
  test (lit "Counted unique types are sorted")
       (entriesData (countRealTypes [VNull; VBoolean true]))
       (entriesData (countRealTypes [VBoolean true; VNull])) =
    [console_log (lit "[OK] " ++ lit "Counted unique types are sorted" ++ newline)].
Proof. apply test_countRealTypes_Permutation. apply perm_swap. Defined.

End DeepEquality.
